(** * RickMortyApp-I: the pagination controller of [src/App.tsx]

    The [App] component keeps seven [useState] cells and changes them from
    three places: the asynchronous function [fetchCharacters], the scroll
    handler [loadMore], and the press handlers of the rendered tree.  This
    file embeds those functions over an explicit store and proves the
    properties of the pagination logic.

    Conventions of the embedding.
    - A handler runs against the state of the latest render, and a render
      takes place between two events.
    - [fetchCharacters] is cut at its suspension point: the part that runs
      inside the call ([fetchCharacters_begin]) and the part that runs when
      the request settles ([fetchCharacters_resume]).  Between
      [await fetch(..)] and [await res.json()] no state cell is written, so
      both awaits are one suspension, settled by one [Outcome].
    - The requests that were issued and have not settled yet are kept in
      the ghost field [inflight]. *)

From Stdlib Require Import ZArith List String Ascii Bool Lia.
From Stdlib Require Import QArith Qround Lqa.
Import ListNotations.
Open Scope Z_scope.

Set Warnings "-register-all".

(** ** JavaScript values *)

Module JS.

(** What [res.json()] can produce, plus [undefined], which reading an
    absent property yields.  A number is kept as an integer: the code only
    ever tests a payload number for truthiness, and every number that is
    not an integer is truthy like any non-zero integer.  A string is its
    sequence of characters.  An object is the list of its own properties,
    each name once. *)
Inductive value : Type :=
| VUndefined
| VNull
| VBool (b : bool)
| VNum (n : Z)
| VStr (s : string)
| VArr (elems : list value)
| VObj (props : list (string * value)).

(** The exceptions the [try] block of [fetchCharacters] can see. *)
Inductive Exn : Type :=
| NetworkError              (* fetch(..) rejects *)
| HttpError (status : Z)    (* throw new Error(`HTTP ${res.status}`) *)
| SyntaxError               (* res.json() rejects *)
| TypeError.                (* property read on null or undefined *)

(** [!!v] *)
Definition truthy (v : value) : bool :=
  match v with
  | VUndefined | VNull => false
  | VBool b => b
  | VNum n => negb (n =? 0)
  | VStr s => negb (String.eqb s EmptyString)
  | VArr _ | VObj _ => true
  end.

Fixpoint lookup (k : string) (props : list (string * value)) : value :=
  match props with
  | [] => VUndefined
  | (k', v) :: rest => if String.eqb k k' then v else lookup k rest
  end.

(** [v.k] for the three names the code reads ([results], [info], [next]):
    none of them is a built-in property of a string, number, boolean or
    array, so on those the read gives [undefined]. *)
Definition member (v : value) (k : string) : Exn + value :=
  match v with
  | VUndefined | VNull => inl TypeError
  | VObj props => inr (lookup k props)
  | VBool _ | VNum _ | VStr _ | VArr _ => inr VUndefined
  end.

(** The elements [...v] contributes to an array literal; [None] when [v]
    is not iterable, which throws a TypeError. *)
Definition spread (v : value) : option (list value) :=
  match v with
  | VArr elems => Some elems
  | VStr s => Some (map (fun c => VStr (String c EmptyString)) (list_ascii_of_string s))
  | VUndefined | VNull | VBool _ | VNum _ | VObj _ => None
  end.

(** [[...a, ...b]] *)
Definition spread_concat (a b : value) : option value :=
  match spread a, spread b with
  | Some xs, Some ys => Some (VArr (xs ++ ys))
  | _, _ => None
  end.

(** [n + 1] on the integers a page counter that starts at 1 can hold:
    doubles are exact up to 2^53, and 2^53 + 1 rounds back to 2^53. *)
Definition max_safe : Z := 9007199254740992.

Definition succ (n : Z) : Z := if n <? max_safe then n + 1 else n.

(** A string in a condition: [null] and the empty string are falsy. *)
Definition truthy_str (e : option string) : bool :=
  match e with
  | None => false
  | Some m => negb (String.eqb m EmptyString)
  end.

Definition truthy_opt (v : option value) : bool :=
  match v with
  | None => false
  | Some x => truthy x
  end.

End JS.

Import JS.

(** ** The network boundary *)

(** A response: its status line and its body as [res.json()] decodes it,
    [None] when the body is not JSON. *)
Record Response : Type := mkResponse {
  status : Z;
  body : option value
}.

(** [res.ok] *)
Definition ok (res : Response) : bool :=
  (200 <=? status res) && (status res <=? 299).

(** How one request settles. *)
Inductive Outcome : Type :=
| Rejected                        (* no response: the fetch promise rejects *)
| Responded (res : Response).

(** ** The component's state *)

Record State : Type := mkState {
  characters : value;             (* useState<Character[]>([]) *)
  page : Z;                       (* useState(1) *)
  loading : bool;                 (* useState(false) *)
  loadingMore : bool;             (* useState(false) *)
  hasMore : bool;                 (* useState(true) *)
  selected : option value;        (* useState<Character | null>(null) *)
  error : option string           (* useState<string | null>(null) *)
}.

(** The store the handlers run in: the state cells, the ghost list of the
    pages whose request is outstanding, and [alive], which becomes false
    when a render throws (there is no error boundary: the tree is then
    unmounted and no handler runs any more). *)
Record World : Type := mkWorld {
  ui : State;
  inflight : list Z;
  alive : bool
}.

Definition initial_state : State :=
  {| characters := VArr []; page := 1; loading := false; loadingMore := false;
     hasMore := true; selected := None; error := None |}.

Definition initial_world : World :=
  {| ui := initial_state; inflight := []; alive := true |}.

(** ** A state and exception monad for the handlers *)

Definition M (A : Type) : Type := World -> (Exn + A) * World.

Definition ret {A} (a : A) : M A := fun w => (inr a, w).

Definition bind {A B} (m : M A) (k : A -> M B) : M B :=
  fun w =>
    match m w with
    | (inl e, w') => (inl e, w')
    | (inr a, w') => k a w'
    end.

Definition throw {A} (e : Exn) : M A := fun w => (inl e, w).

Definition lift {A} (r : Exn + A) : M A := fun w => (r, w).

(** [try { body } catch (e) { handler e } finally { finalizer }] *)
Definition try_catch_finally {A} (body : M A) (handler : Exn -> M A)
    (finalizer : M unit) : M A :=
  fun w =>
    let '(r, w1) :=
      match body w with
      | (inl e, w') => handler e w'
      | (inr a, w') => (inr a, w')
      end in
    match finalizer w1 with
    | (inl e, w2) => (inl e, w2)
    | (inr _, w2) => (r, w2)
    end.

Declare Scope monad_scope.
Delimit Scope monad_scope with monad.
Notation "x <- m ;; k" := (bind m (fun x => k))
  (at level 61, m at next level, right associativity) : monad_scope.
Notation "m ;; k" := (bind m (fun _ => k))
  (at level 61, right associativity) : monad_scope.
Open Scope monad_scope.

(** The world a handler leaves behind. *)
Definition exec {A} (m : M A) (w : World) : World := snd (m w).

(** ** The state setters *)

Definition modify (f : State -> State) : M unit :=
  fun w => (inr tt, {| ui := f (ui w); inflight := inflight w; alive := alive w |}).

Definition setCharacters (v : value) : M unit :=
  modify (fun s => {| characters := v; page := page s; loading := loading s;
                      loadingMore := loadingMore s; hasMore := hasMore s;
                      selected := selected s; error := error s |}).

Definition setPage (n : Z) : M unit :=
  modify (fun s => {| characters := characters s; page := n; loading := loading s;
                      loadingMore := loadingMore s; hasMore := hasMore s;
                      selected := selected s; error := error s |}).

Definition setLoading (b : bool) : M unit :=
  modify (fun s => {| characters := characters s; page := page s; loading := b;
                      loadingMore := loadingMore s; hasMore := hasMore s;
                      selected := selected s; error := error s |}).

Definition setLoadingMore (b : bool) : M unit :=
  modify (fun s => {| characters := characters s; page := page s; loading := loading s;
                      loadingMore := b; hasMore := hasMore s;
                      selected := selected s; error := error s |}).

Definition setHasMore (b : bool) : M unit :=
  modify (fun s => {| characters := characters s; page := page s; loading := loading s;
                      loadingMore := loadingMore s; hasMore := b;
                      selected := selected s; error := error s |}).

Definition setSelected (v : option value) : M unit :=
  modify (fun s => {| characters := characters s; page := page s; loading := loading s;
                      loadingMore := loadingMore s; hasMore := hasMore s;
                      selected := v; error := error s |}).

Definition setError (e : option string) : M unit :=
  modify (fun s => {| characters := characters s; page := page s; loading := loading s;
                      loadingMore := loadingMore s; hasMore := hasMore s;
                      selected := selected s; error := e |}).

(** [setCharacters(prev => f prev)].  The call only queues the updater;
    React runs it when it next renders [App], outside the [try] block of the
    caller.  An updater that throws there takes the component down. *)
Definition setCharactersWith (f : value -> option value) : M unit :=
  fun w =>
    match f (characters (ui w)) with
    | Some v => setCharacters v w
    | None => (inr tt, {| ui := ui w; inflight := inflight w; alive := false |})
    end.

(** ** The requests *)

(** [fetch(url of p)]: one more outstanding request. *)
Definition fetch (p : Z) : M unit :=
  fun w => (inr tt, {| ui := ui w; inflight := p :: inflight w; alive := alive w |}).

Fixpoint remove_one (p : Z) (l : list Z) : list Z :=
  match l with
  | [] => []
  | q :: rest => if q =? p then rest else q :: remove_one p rest
  end.

(** The request for [p] has settled. *)
Definition settle (p : Z) : M unit :=
  fun w => (inr tt, {| ui := ui w; inflight := remove_one p (inflight w); alive := alive w |}).

(** [await fetch(..)] *)
Definition await_fetch (o : Outcome) : M Response :=
  match o with
  | Rejected => throw NetworkError
  | Responded res => ret res
  end.

(** [await res.json()] *)
Definition await_json (res : Response) : M value :=
  match body res with
  | None => throw SyntaxError
  | Some json => ret json
  end.

(** ** fetchCharacters *)

Definition error_message : string :=
  "Não foi possível carregar personagens. Tente novamente.".

(** Lines 30-34: what the call does before it suspends. *)
Definition fetchCharacters_begin (p : Z) : M unit :=
  (if p =? 1 then setLoading true else setLoadingMore true) ;;
  setError None ;;
  fetch p.

(** Lines 34-40: the rest of the [try] block, once the request has settled
    with [o]. *)
Definition fetch_body (p : Z) (o : Outcome) : M unit :=
  res <- await_fetch o ;;
  (if negb (ok res) then throw (HttpError (status res)) else ret tt) ;;
  json <- await_json res ;;
  results <- lift (member json "results") ;;
  (if p =? 1 then setCharacters results
   else setCharactersWith (fun prev => spread_concat prev results)) ;;
  info <- lift (member json "info") ;;
  (if truthy info
   then next <- lift (member info "next") ;; setHasMore (truthy next)
   else setHasMore false).

(** Lines 34-47: what runs once the request for [p] has settled with [o]. *)
Definition fetchCharacters_resume (p : Z) (o : Outcome) : M unit :=
  settle p ;;
  try_catch_finally
    (fetch_body p o)
    (fun e => setError (Some error_message))
    (setLoading false ;; setLoadingMore false).

(** ** loadMore (lines 54-59) *)

Definition loadMore : M unit :=
  fun w =>
    if loadingMore (ui w) || loading (ui w) || negb (hasMore (ui w))
    then ret tt w
    else
      (let next := JS.succ (page (ui w)) in
       setPage next ;;
       fetchCharacters_begin next) w.

(** ** The effect and the press handlers *)

(** [useEffect(() => { fetchCharacters(1) }, [])] runs once, after the first
    render and before any handler. *)
Definition mount : M unit := fetchCharacters_begin 1.

Definition mounted_world : World := exec mount initial_world.

(** [onPress={() => fetchCharacters(1)}] of the retry button. *)
Definition retry : M unit := fetchCharacters_begin 1.

(** What is on screen (lines 82-112). *)
Definition spinner_visible (s : State) : bool := loading s.

Definition retry_visible (s : State) : bool :=
  negb (loading s) && truthy_str (error s).

Definition list_visible (s : State) : bool :=
  negb (loading s) && negb (truthy_str (error s)).

(** [data={characters}] *)
Definition list_data (s : State) : list value :=
  match characters s with
  | VArr elems => elems
  | _ => []
  end.

(** ** Events *)

(** What can happen to a mounted component: the list reports that its end
    is near, a button or a card is pressed, or an outstanding request
    settles. *)
Inductive Event : Type :=
| EndReached                      (* onEndReached={loadMore} *)
| RetryPress                      (* the button of lines 88-93 *)
| CardPress (item : value)        (* onPress={() => setSelected(item)} *)
| BackPress                       (* onPress={() => setSelected(null)} *)
| Settled (p : Z) (o : Outcome).  (* the request for page p settles *)

Definition handler (ev : Event) : M unit :=
  match ev with
  | EndReached => loadMore
  | RetryPress => retry
  | CardPress item => setSelected (Some item)
  | BackPress => setSelected None
  | Settled p o => fetchCharacters_resume p o
  end.

(** When an event can occur.  A press needs its button on screen and a
    settlement needs its request outstanding.  [loadMore] carries its own
    guard, so [EndReached] is allowed at any time, also when the list that
    fires it is not rendered; the retry handler tests nothing itself, its
    only guard is the condition under which the button is rendered. *)
Definition enabled (ev : Event) (w : World) : Prop :=
  alive w = true /\
  match ev with
  | EndReached => True
  | RetryPress => retry_visible (ui w) = true
  | CardPress item => list_visible (ui w) = true /\ In item (list_data (ui w))
  | BackPress => truthy_opt (selected (ui w)) = true
  | Settled p _ => In p (inflight w)
  end.

Definition step (w : World) (ev : Event) (w' : World) : Prop :=
  enabled ev w /\ w' = exec (handler ev) w.


(** A run of events. *)
Inductive steps : World -> list Event -> World -> Prop :=
| steps_nil : forall w, steps w [] w
| steps_cons : forall w ev w1 evs w2,
    step w ev w1 -> steps w1 evs w2 -> steps w (ev :: evs) w2.

(** The worlds a mounted component can be in. *)
Inductive reachable : World -> Prop :=
| reach_mount : reachable mounted_world
| reach_step : forall w ev w', reachable w -> step w ev w' -> reachable w'.

(** ** What the screen shows, as a phase *)

(** The render of lines 82-112 tests [loading] first, then [error], and
    inside the list [loadingMore] and [hasMore].  The state before the
    mount effect has no cell of its own: it reads as [Ready]. *)
Inductive Phase : Type :=
| InitialLoading | IncrementalLoading | Ready | Exhausted | Failed.

Definition phase (s : State) : Phase :=
  if loading s then InitialLoading
  else if truthy_str (error s) then Failed
  else if loadingMore s then IncrementalLoading
  else if hasMore s then Ready
  else Exhausted.

(** [loading || loadingMore] *)
Definition in_loading (s : State) : bool := loading s || loadingMore s.

(** The page [loadMore] asks for next: [const next = page + 1]. *)
Definition cursor (s : State) : Z := JS.succ (page s).

(** The outcomes on which the [try] block throws before it writes any
    cell: no response, a status outside 200-299, a body that is not JSON,
    and the JSON value [null]. *)
Definition failed (o : Outcome) : bool :=
  match o with
  | Rejected => true
  | Responded res =>
      negb (ok res) ||
      match body res with
      | None | Some VNull | Some VUndefined => true
      | Some _ => false
      end
  end.

(** A 200 response that carries [json]. *)
Definition ok_json (json : value) : Outcome :=
  Responded {| status := 200; body := Some json |}.

(** [n] calls in a row. *)
Fixpoint repeat_call (m : M unit) (n : nat) (w : World) : World :=
  match n with
  | O => w
  | S k => repeat_call m k (exec m w)
  end.

(** ** Sample data *)

Definition entity (n : Z) : value := VObj [("id"%string, VNum n)].

Definition page1_json : value :=
  VObj [("results"%string, VArr [entity 1; entity 2]);
        ("info"%string, VObj [("next"%string, VStr "page=2")])].

Definition page2_json : value :=
  VObj [("results"%string, VArr [entity 3]);
        ("info"%string, VObj [("next"%string, VNull)])].

Definition http_500 : Outcome := Responded {| status := 500; body := None |}.

(** Page 1 has arrived. *)
Definition w_page1 : World :=
  exec (fetchCharacters_resume 1 (ok_json page1_json)) mounted_world.

(** The list asked for page 2 ... *)
Definition w_more : World := exec loadMore w_page1.

(** ... which arrived and was the last one, *)
Definition w_page2 : World :=
  exec (fetchCharacters_resume 2 (ok_json page2_json)) w_more.

(** ... or which failed. *)
Definition w_more_failed : World :=
  exec (fetchCharacters_resume 2 http_500) w_more.

(** The very first request failed. *)
Definition w_first_failed : World :=
  exec (fetchCharacters_resume 1 http_500) mounted_world.

(** Retry after page 2 failed, and page 1 arriving again. *)
Definition w_retry : World := exec retry w_more_failed.

Definition w_retry_page1 : World :=
  exec (fetchCharacters_resume 1 (ok_json page1_json)) w_retry.

(** A longer run: page 2 arrives and announces a page 3, which fails; then
    retry, and page 1 arrives again. *)
Definition page2_more_json : value :=
  VObj [("results"%string, VArr [entity 3]);
        ("info"%string, VObj [("next"%string, VStr "page=3")])].

Definition w_two_pages : World :=
  exec (fetchCharacters_resume 2 (ok_json page2_more_json)) w_more.

Definition w_third_failed : World :=
  exec (fetchCharacters_resume 3 http_500) (exec loadMore w_two_pages).

Definition w_third_retried : World :=
  exec (fetchCharacters_resume 1 (ok_json page1_json)) (exec retry w_third_failed).

(** Page 1 answers 200 with the JSON object that has no property at all. *)
Definition w_malformed : World :=
  exec (fetchCharacters_resume 1 (ok_json (VObj []))) mounted_world.

(** ** Predicates used by the proofs *)

(** [m] leaves the observation [f] of the world as it was. *)
Definition keeps {A X} (f : World -> X) (m : M A) : Prop :=
  forall w, f (exec m w) = f w.

(** The invariant of a mounted component. *)
(** Either nothing is outstanding and no flag is up, or exactly one request
    is outstanding, a flag is up and no message is shown.  The page counter
    never goes below 1. *)
Definition Inv (w : World) : Prop :=
  1 <= page (ui w) /\
  ((inflight w = [] /\ in_loading (ui w) = false) \/
   (exists p, inflight w = [p] /\ in_loading (ui w) = true /\ error (ui w) = None)).

(** A 200 response that carries the JSON object without properties. *)
Definition empty_object_response : Response :=
  {| status := 200; body := Some (VObj []) |}.

(** ** The rest of the screen *)

(** [visible={!!selected}] of the detail view (line 114). *)
Definition modal_visible (s : State) : bool := truthy_opt (selected s).

(** The footer of the list (lines 105-110): the small spinner and the
    end-of-list line. *)
Definition footer_spinner_visible (s : State) : bool := loadingMore s.

Definition end_marker_visible (s : State) : bool := negb (hasMore s).

(** The two events that only touch [selected]. *)
Definition is_selection (ev : Event) : bool :=
  match ev with
  | CardPress _ | BackPress => true
  | EndReached | RetryPress | Settled _ _ => false
  end.

(** Everything but [selected]: two worlds agree on it when they are equal
    once [selected] is cleared in both. *)
Definition forget_selected (w : World) : World := exec (setSelected None) w.

Definition same_pagination (w1 w2 : World) : Prop :=
  forget_selected w1 = forget_selected w2.



(** What the flags and the counter say about the outstanding request. *)
Definition Inv_flags (w : World) : Prop :=
  (error (ui w) = None \/ error (ui w) = Some error_message) /\
  (loadingMore (ui w) = true -> hasMore (ui w) = true) /\
  page (ui w) <= max_safe /\
  (forall p, inflight w = [p] ->
     loading (ui w) = (p =? 1) /\ loadingMore (ui w) = negb (p =? 1) /\
     (p = 1 \/ p = page (ui w))).

(** A run in which a card is opened while page 2 is asked for, and closed
    again. *)
Definition browse_run : list Event :=
  [Settled 1 (ok_json page1_json); CardPress (entity 1); EndReached; BackPress].

Definition w_browsed : World :=
  exec (handler BackPress)
    (exec loadMore (exec (handler (CardPress (entity 1))) w_page1)).

(** ** The card width (lines 16-17) *)

(** [Math.round(x)]: the nearest integer, a half going up.  The width of
    the window is a double, so a rational; for a width from 48 up to 2^53
    the subtraction and the halving of line 17 are exact in doubles, and
    the rational computation below is the one the code performs. *)
Definition Math_round (x : Q) : Z := Qfloor (x + (1 # 2))%Q.

Definition CARD_WIDTH (width : Q) : Z := Math_round ((width - 48) / 2)%Q.

(** * Properties *)

(** ** Frame conditions *)

Create HintDb keeps.

Lemma keeps_ret {A X} (f : World -> X) (a : A) : keeps f (ret a).
Proof. intro w. reflexivity. Qed.

Lemma keeps_throw {A X} (f : World -> X) (e : Exn) : keeps f (@throw A e).
Proof. intro w. reflexivity. Qed.

Lemma keeps_lift {A X} (f : World -> X) (r : Exn + A) : keeps f (lift r).
Proof. intro w. reflexivity. Qed.

Lemma keeps_bind {A B X} (f : World -> X) (m : M A) (k : A -> M B) :
  keeps f m -> (forall a, keeps f (k a)) -> keeps f (bind m k).
Proof.
  intros Hm Hk w. unfold exec, bind.
  specialize (Hm w). unfold exec in Hm.
  destruct (m w) as [[e | a] w1]; simpl in *.
  - exact Hm.
  - rewrite <- Hm. apply Hk.
Qed.

Lemma keeps_try {A X} (f : World -> X) (body : M A) (h : Exn -> M A) (fin : M unit) :
  keeps f body -> (forall e, keeps f (h e)) -> keeps f fin ->
  keeps f (try_catch_finally body h fin).
Proof.
  intros Hb Hh Hf w. unfold keeps, exec, try_catch_finally in *.
  specialize (Hb w). destruct (body w) as [[e | a] w1]; simpl in Hb.
  - specialize (Hh e w1). destruct (h e w1) as [r w2]; simpl in Hh.
    specialize (Hf w2). destruct (fin w2) as [[e' | u] w3]; simpl in *; congruence.
  - specialize (Hf w1). destruct (fin w1) as [[e' | u] w3]; simpl in *; congruence.
Qed.

Lemma keeps_await_fetch {X} (f : World -> X) (o : Outcome) : keeps f (await_fetch o).
Proof. destruct o; intro w; reflexivity. Qed.

Lemma keeps_await_json {X} (f : World -> X) (res : Response) : keeps f (await_json res).
Proof. unfold await_json. destruct (body res); intro w; reflexivity. Qed.

#[local] Hint Resolve keeps_ret keeps_throw keeps_lift keeps_await_fetch
  keeps_await_json : keeps.
#[local] Hint Extern 1 (keeps _ (bind _ _)) => (apply keeps_bind; [ | intro ]) : keeps.
#[local] Hint Extern 1 (keeps _ (try_catch_finally _ _ _)) =>
  (apply keeps_try; [ | intro | ]) : keeps.
#[local] Hint Extern 2 (keeps _ (if ?b then _ else _)) => destruct b : keeps.
#[local] Hint Extern 3 (keeps _ (setCharactersWith _)) =>
  (let w := fresh "w" in
   intro w; unfold exec, setCharactersWith;
   destruct (spread_concat (characters (ui w)) _); reflexivity) : keeps.
#[local] Hint Extern 8 (keeps _ _) => (intro; reflexivity) : keeps.

Ltac frame := unfold fetchCharacters_resume, fetch_body, fetchCharacters_begin;
  auto 20 with keeps.

(** Once the request is taken off the list, the settlement leaves the list
    of outstanding requests alone. *)
Lemma resume_inflight (p : Z) (o : Outcome) (w : World) :
  inflight (exec (fetchCharacters_resume p o) w) = remove_one p (inflight w).
Proof.
  assert (H : keeps inflight
    (try_catch_finally (fetch_body p o)
       (fun e => setError (Some error_message))
       (setLoading false ;; setLoadingMore false))) by frame.
  unfold exec, fetchCharacters_resume, bind, settle. simpl.
  exact (H {| ui := ui w; inflight := remove_one p (inflight w); alive := alive w |}).
Qed.

(** A settlement never writes [page] or [selected]. *)
Lemma resume_page (p : Z) (o : Outcome) :
  keeps (fun w => page (ui w)) (fetchCharacters_resume p o).
Proof. frame. Qed.

Lemma resume_selected (p : Z) (o : Outcome) :
  keeps (fun w => selected (ui w)) (fetchCharacters_resume p o).
Proof. frame. Qed.

(** The synchronous part of a call writes [loading] or [loadingMore],
    [error], and the list of requests; nothing else. *)
Lemma begin_characters (p : Z) :
  keeps (fun w => characters (ui w)) (fetchCharacters_begin p).
Proof. frame. Qed.

Lemma begin_page (p : Z) : keeps (fun w => page (ui w)) (fetchCharacters_begin p).
Proof. frame. Qed.

Lemma begin_hasMore (p : Z) : keeps (fun w => hasMore (ui w)) (fetchCharacters_begin p).
Proof. frame. Qed.

Lemma begin_alive (p : Z) : keeps alive (fetchCharacters_begin p).
Proof. frame. Qed.

Lemma begin_inflight (p : Z) (w : World) :
  inflight (exec (fetchCharacters_begin p) w) = p :: inflight w.
Proof. unfold exec, fetchCharacters_begin, bind. destruct (p =? 1); reflexivity. Qed.

Lemma begin_error (p : Z) (w : World) :
  error (ui (exec (fetchCharacters_begin p) w)) = None.
Proof. unfold exec, fetchCharacters_begin, bind. destruct (p =? 1); reflexivity. Qed.

Lemma begin_in_loading (p : Z) (w : World) :
  in_loading (ui (exec (fetchCharacters_begin p) w)) = true.
Proof.
  unfold exec, fetchCharacters_begin, bind, in_loading.
  destruct (p =? 1); simpl; auto using orb_true_r.
Qed.

(** ** What a settlement does *)

Ltac unfold_m :=
  unfold exec, fetchCharacters_resume, fetch_body, try_catch_finally, bind,
    await_fetch, await_json, settle, lift, throw, ret,
    setCharacters, setCharactersWith, setHasMore, setError, setLoading,
    setLoadingMore, modify in *.

(** On a failed outcome the body of the [try] throws before it has written
    anything. *)
Lemma body_throws (p : Z) (o : Outcome) (w : World) :
  failed o = true -> exists e, fetch_body p o w = (inl e, w).
Proof.
  unfold failed, fetch_body, bind, await_fetch, await_json, throw, ret, lift.
  destruct o as [ | res]; intro H.
  - now exists NetworkError.
  - destruct (ok res); simpl in *.
    + destruct (body res) as [json | ].
      * destruct json; try discriminate; now exists TypeError.
      * now exists SyntaxError.
    + now exists (HttpError (status res)).
Qed.

(** On every other outcome it runs to its end. *)
Lemma body_returns (p : Z) (o : Outcome) (w : World) :
  failed o = false -> exists w', fetch_body p o w = (inr tt, w').
Proof.
  unfold failed, fetch_body, bind, await_fetch, await_json, throw, ret, lift.
  destruct o as [ | res]; intro H; [discriminate | ].
  destruct (ok res); simpl in *; [ | discriminate].
  destruct (body res) as [json | ]; [ | discriminate].
  assert (Hm : forall k, exists v, member json k = inr v)
    by (intro k; destruct json; try discriminate; simpl; eauto).
  destruct (Hm "results"%string) as [results ->].
  destruct (Hm "info"%string) as [info ->].
  assert (Hset : exists w1,
    (if p =? 1 then setCharacters results
     else setCharactersWith (fun prev => spread_concat prev results)) w = (inr tt, w1)).
  { destruct (p =? 1); [now eexists | ].
    unfold setCharactersWith. destruct (spread_concat _ _); now eexists. }
  destruct Hset as [w1 ->].
  destruct (truthy info) eqn:Hinfo; [ | now eexists].
  destruct info; try discriminate; simpl; now eexists.
Qed.

Lemma body_keeps_error (p : Z) (o : Outcome) :
  keeps (fun w => error (ui w)) (fetch_body p o).
Proof. frame. Qed.

(** The [finally] block: whatever happened, both flags end up false. *)
Lemma resume_flags (p : Z) (o : Outcome) (w : World) :
  loading (ui (exec (fetchCharacters_resume p o) w)) = false /\
  loadingMore (ui (exec (fetchCharacters_resume p o) w)) = false.
Proof.
  unfold exec, fetchCharacters_resume, try_catch_finally, bind, settle. simpl.
  destruct (fetch_body p o _) as [[e | u] w1]; simpl; auto.
Qed.

(** A failed outcome: the message is set, the flags are cleared, and
    nothing else moves. *)
Lemma resume_failed (p : Z) (o : Outcome) (w : World) :
  failed o = true ->
  exec (fetchCharacters_resume p o) w =
  {| ui := {| characters := characters (ui w); page := page (ui w);
              loading := false; loadingMore := false; hasMore := hasMore (ui w);
              selected := selected (ui w); error := Some error_message |};
     inflight := remove_one p (inflight w);
     alive := alive w |}.
Proof.
  intro H.
  unfold exec, fetchCharacters_resume, try_catch_finally, bind, settle. simpl.
  destruct (body_throws p o
    {| ui := ui w; inflight := remove_one p (inflight w); alive := alive w |} H)
    as [e ->].
  reflexivity.
Qed.

(** The message is written on the failed outcomes and on no other. *)
Lemma resume_error (p : Z) (o : Outcome) (w : World) :
  error (ui (exec (fetchCharacters_resume p o) w)) =
  if failed o then Some error_message else error (ui w).
Proof.
  destruct (failed o) eqn:H.
  - now rewrite resume_failed.
  - unfold exec, fetchCharacters_resume, try_catch_finally, bind, settle. simpl.
    pose proof (body_keeps_error p o
      {| ui := ui w; inflight := remove_one p (inflight w); alive := alive w |}) as K.
    destruct (body_returns p o
      {| ui := ui w; inflight := remove_one p (inflight w); alive := alive w |} H)
      as [w1 E].
    unfold exec in K. rewrite E in *. simpl in *. exact K.
Qed.

(** A page-1 response that decodes: [json.results] becomes the list, as it
    is. *)
Lemma resume_first_page (res : Response) (json results : value) (w : World) :
  ok res = true -> body res = Some json ->
  member json "results" = inr results ->
  characters (ui (exec (fetchCharacters_resume 1 (Responded res)) w)) = results /\
  alive (exec (fetchCharacters_resume 1 (Responded res)) w) = alive w.
Proof.
  intros Hok Hb Hr. unfold_m. rewrite Hok, Hb, Hr. simpl.
  destruct json; try discriminate; simpl;
    try (split; reflexivity).
  destruct (truthy (lookup "info" props)) eqn:Hi; simpl.
  - destruct (lookup "info" props); try discriminate; simpl; split; reflexivity.
  - split; reflexivity.
Qed.

(** A later page that decodes: the queued updater spreads the list of the
    latest render and [json.results] into a new array. *)
Lemma resume_next_page (p : Z) (res : Response) (json results v : value) (w : World) :
  p <> 1 -> ok res = true -> body res = Some json ->
  member json "results" = inr results ->
  spread_concat (characters (ui w)) results = Some v ->
  characters (ui (exec (fetchCharacters_resume p (Responded res)) w)) = v /\
  alive (exec (fetchCharacters_resume p (Responded res)) w) = alive w.
Proof.
  intros Hp Hok Hb Hr Hs. apply Z.eqb_neq in Hp. unfold_m.
  rewrite Hok, Hb, Hr, Hp. simpl. rewrite Hs. simpl.
  destruct json; try discriminate; simpl;
    try (split; reflexivity).
  destruct (truthy (lookup "info" props)) eqn:Hi; simpl.
  - destruct (lookup "info" props); try discriminate; simpl; split; reflexivity.
  - split; reflexivity.
Qed.

(** ** loadMore, case by case *)

Lemma loadMore_blocked (w : World) :
  loadingMore (ui w) || loading (ui w) || negb (hasMore (ui w)) = true ->
  exec loadMore w = w.
Proof. intro H. unfold exec, loadMore. now rewrite H. Qed.

Lemma loadMore_passes (w : World) :
  loadingMore (ui w) || loading (ui w) || negb (hasMore (ui w)) = false ->
  exec loadMore w =
  exec (fetchCharacters_begin (cursor (ui w))) (exec (setPage (cursor (ui w))) w).
Proof. intro H. unfold exec, loadMore, cursor. rewrite H. reflexivity. Qed.

Lemma succ_next (n : Z) : 1 <= n -> 2 <= JS.succ n.
Proof.
  unfold JS.succ, max_safe. intro H.
  destruct (Z.ltb_spec n 9007199254740992); lia.
Qed.


Lemma remove_one_single (p q : Z) : In p [q] -> remove_one p [q] = [].
Proof.
  intros [-> | []]. simpl. now rewrite Z.eqb_refl.
Qed.

(** ** The invariant holds in every reachable world *)

Lemma Inv_mounted : Inv mounted_world.
Proof. split; [vm_compute; discriminate | right; exists 1; repeat split]. Qed.

Lemma retry_visible_error (s : State) : retry_visible s = true -> error s <> None.
Proof.
  unfold retry_visible. intros H E. rewrite E in H. simpl in H.
  now rewrite andb_false_r in H.
Qed.

(** A call of [fetchCharacters] made while nothing is outstanding. *)
Lemma Inv_begin (p : Z) (w : World) :
  1 <= page (ui w) -> inflight w = [] -> Inv (exec (fetchCharacters_begin p) w).
Proof.
  intros Hp Hi. split.
  - now rewrite (begin_page p w).
  - right. exists p. rewrite begin_inflight, Hi, begin_in_loading, begin_error. auto.
Qed.

Lemma Inv_step (w w' : World) (ev : Event) : Inv w -> step w ev w' -> Inv w'.
Proof.
  intros [Hpage Hfl] [[Halive Hen] ->].
  destruct ev as [ | | item | | p o]; simpl in *.
  - (* EndReached *)
    destruct (loadingMore (ui w) || loading (ui w) || negb (hasMore (ui w))) eqn:G.
    + rewrite loadMore_blocked by exact G. now split.
    + rewrite loadMore_passes by exact G.
      apply Inv_begin.
      * simpl. unfold cursor. pose proof (succ_next _ Hpage). lia.
      * simpl. destruct Hfl as [[Hi _] | (q & _ & Hl & _)]; [exact Hi | ].
        unfold in_loading in Hl.
        destruct (loadingMore (ui w)), (loading (ui w)); simpl in *; discriminate.
  - (* RetryPress *)
    apply Inv_begin; [exact Hpage | ].
    destruct Hfl as [[Hi _] | (q & _ & _ & He)]; [exact Hi | ].
    now apply retry_visible_error in Hen.
  - (* CardPress *) split; [exact Hpage | exact Hfl].
  - (* BackPress *) split; [exact Hpage | exact Hfl].
  - (* Settled *)
    split.
    + now rewrite (resume_page p o w).
    + left. rewrite resume_inflight. split.
      * destruct Hfl as [[Hi _] | (q & Hq & _)].
        -- rewrite Hi in Hen. destruct Hen.
        -- rewrite Hq in *. now apply remove_one_single.
      * unfold in_loading. destruct (resume_flags p o w) as [-> ->]. reflexivity.
Qed.

Lemma reachable_Inv (w : World) : reachable w -> Inv w.
Proof.
  induction 1 as [ | w ev w' _ IH Hs].
  - exact Inv_mounted.
  - exact (Inv_step w w' ev IH Hs).
Qed.

Lemma reachable_steps (w w' : World) (evs : list Event) :
  reachable w -> steps w evs w' -> reachable w'.
Proof.
  intros Hr Hs. induction Hs as [ | w ev w1 evs w2 H1 _ IH]; [exact Hr | ].
  apply IH. exact (reach_step w ev w1 Hr H1).
Qed.



(** ** C1: single flight *)



(** ** Reading a phase back into the cells *)

Ltac phase_cells H :=
  unfold phase in H;
  repeat match type of H with
         | context [if ?b then _ else _] => destruct b eqn:?
         end;
  try discriminate.

Lemma phase_ready (s : State) :
  phase s = Ready ->
  loading s = false /\ loadingMore s = false /\ hasMore s = true /\
  truthy_str (error s) = false.
Proof. intro H. phase_cells H. auto. Qed.

Lemma phase_failed_after (p : Z) (o : Outcome) (w : World) :
  failed o = true -> phase (ui (exec (fetchCharacters_resume p o) w)) = Failed.
Proof. intro H. rewrite resume_failed by exact H. reflexivity. Qed.

Lemma ready_passes (w : World) :
  phase (ui w) = Ready ->
  loadingMore (ui w) || loading (ui w) || negb (hasMore (ui w)) = false.
Proof. intro H. destruct (phase_ready _ H) as (-> & -> & -> & _). reflexivity. Qed.

Lemma loadMore_characters (w : World) :
  characters (ui (exec loadMore w)) = characters (ui w).
Proof.
  destruct (loadingMore (ui w) || loading (ui w) || negb (hasMore (ui w))) eqn:G.
  - now rewrite loadMore_blocked.
  - rewrite loadMore_passes by exact G.
    now rewrite (begin_characters (cursor (ui w))).
Qed.

Lemma loadMore_inflight (w : World) :
  loadingMore (ui w) || loading (ui w) || negb (hasMore (ui w)) = false ->
  inflight (exec loadMore w) = cursor (ui w) :: inflight w.
Proof. intro G. rewrite loadMore_passes by exact G. now rewrite begin_inflight. Qed.

(** The sample worlds are worlds of a mounted component. *)
Lemma reachable_w_page1 : reachable w_page1.
Proof.
  apply (reach_step mounted_world (Settled 1 (ok_json page1_json))).
  - exact reach_mount.
  - repeat split. now left.
Qed.

Lemma reachable_w_more : reachable w_more.
Proof.
  apply (reach_step w_page1 EndReached); [exact reachable_w_page1 | ].
  repeat split.
Qed.

Lemma reachable_w_more_failed : reachable w_more_failed.
Proof.
  apply (reach_step w_more (Settled 2 http_500)); [exact reachable_w_more | ].
  repeat split. now left.
Qed.

Lemma reachable_w_first_failed : reachable w_first_failed.
Proof.
  apply (reach_step mounted_world (Settled 1 http_500)); [exact reach_mount | ].
  repeat split. now left.
Qed.

(** ** C2: a later page is appended *)

(** C2.  In a reachable world that shows the list with more to come (phase
    Ready) and holds the items [items], [loadMore] issues the request for
    the next page, and when that request is answered with a success status
    and a payload whose [results] is the array [new], the items become
    [items ++ new]: the old ones in place, the new ones after them in page
    order, nothing dropped for a repeated id. *)
Theorem loadMore_appends (w : World) (items new : list value)
    (res : Response) (json : value) :
  reachable w ->
  phase (ui w) = Ready ->
  characters (ui w) = VArr items ->
  ok res = true ->
  body res = Some json ->
  member json "results" = inr (VArr new) ->
  inflight (exec loadMore w) = [cursor (ui w)] /\
  characters (ui (exec (fetchCharacters_resume (cursor (ui w)) (Responded res))
                    (exec loadMore w)))
  = VArr (items ++ new).
Proof.
  intros Hr Hph Hc Hok Hb Hm.
  pose proof (ready_passes w Hph) as G.
  destruct (reachable_Inv w Hr) as [Hpage Hfl].
  split.
  - rewrite loadMore_inflight by exact G.
    destruct Hfl as [[-> _] | (q & _ & Hl & _)]; [reflexivity | ].
    destruct (phase_ready _ Hph) as (Hl1 & Hl2 & _).
    unfold in_loading in Hl. rewrite Hl1, Hl2 in Hl. discriminate.
  - refine (proj1 (resume_next_page (cursor (ui w)) res json (VArr new)
                     (VArr (items ++ new)) (exec loadMore w) _ Hok Hb Hm _)).
    + unfold cursor. pose proof (succ_next _ Hpage). lia.
    + rewrite loadMore_characters, Hc. reflexivity.
Qed.

Lemma loadMore_appends_witness :
  inflight (exec loadMore w_page1) = [2] /\
  characters (ui w_page2) = VArr ([entity 1; entity 2] ++ [entity 3]).
Proof.
  exact (loadMore_appends w_page1 [entity 1; entity 2] [entity 3]
           {| status := 200; body := Some page2_json |} page2_json
           reachable_w_page1 eq_refl eq_refl eq_refl eq_refl eq_refl).
Defined.

(** ** C3: when loadMore does nothing *)

(** C3, as stated, fails: after the first request has failed the phase is
    Failed, not Ready, and yet a call of [loadMore] moves [page] to 2 and
    issues the request for page 2.  Its guard tests [loadingMore],
    [loading] and [hasMore], not [error]. *)
Lemma loadMore_in_failed_phase :
  reachable w_first_failed /\
  phase (ui w_first_failed) = Failed /\
  phase (ui w_first_failed) <> Ready /\
  exec loadMore w_first_failed <> w_first_failed /\
  page (ui (exec loadMore w_first_failed)) = 2 /\
  inflight (exec loadMore w_first_failed) = [2].
Proof.
  split; [exact reachable_w_first_failed | ].
  repeat split; discriminate.
Qed.

(** C3, amended.  In the phases InitialLoading, IncrementalLoading and
    Exhausted, and in a Failed state whose [hasMore] is false, a call of
    [loadMore] returns the world it was given: no cell is written and no
    request is issued or queued. *)
Theorem loadMore_noop (w : World) :
  phase (ui w) = InitialLoading \/ phase (ui w) = IncrementalLoading \/
  phase (ui w) = Exhausted \/ (phase (ui w) = Failed /\ hasMore (ui w) = false) ->
  exec loadMore w = w.
Proof.
  intro H. apply loadMore_blocked.
  destruct H as [H | [H | [H | [H Hm]]]].
  - phase_cells H. now rewrite orb_true_r.
  - phase_cells H. reflexivity.
  - phase_cells H. reflexivity.
  - rewrite Hm. now rewrite orb_true_r.
Qed.

Lemma loadMore_noop_witness : exec loadMore w_more = w_more.
Proof. apply (loadMore_noop w_more). right; left. reflexivity. Defined.

(** ** C4: what retry asks for *)

Lemma reachable_w_third_failed : reachable w_third_failed.
Proof.
  apply (reach_step (exec loadMore w_two_pages) (Settled 3 http_500)).
  - apply (reach_step w_two_pages EndReached); [ | repeat split].
    apply (reach_step w_more (Settled 2 (ok_json page2_more_json)));
      [exact reachable_w_more | ].
    repeat split. now left.
  - repeat split. now left.
Qed.

(** C4, as stated, fails: after pages 1 and 2 were loaded and page 3
    failed, the phase is Failed, three items are held and [page] is 3; the
    retry button then issues the request for page 1, not for the page that
    failed, and raises [loading], not [loadingMore]; when page 1 arrives
    its two items replace the three. *)
Lemma retry_restarts_from_page_one :
  reachable w_third_failed /\
  phase (ui w_third_failed) = Failed /\
  characters (ui w_third_failed) = VArr [entity 1; entity 2; entity 3] /\
  page (ui w_third_failed) = 3 /\
  inflight (exec retry w_third_failed) = [1] /\
  loading (ui (exec retry w_third_failed)) = true /\
  loadingMore (ui (exec retry w_third_failed)) = false /\
  characters (ui w_third_retried) = VArr [entity 1; entity 2].
Proof. split; [exact reachable_w_third_failed | repeat split]. Qed.

(** C4, amended.  In every Failed state, whether or not items are held,
    the retry button issues the request for page 1 as an initial load
    ([loading] goes up).  The items already held stay while that request is
    outstanding and when it fails; when it is answered with a success
    status and a payload that decodes, they are replaced by that payload's
    [results]. *)
Theorem retry_is_initial_load (w : World) :
  phase (ui w) = Failed ->
  inflight (exec retry w) = 1 :: inflight w /\
  phase (ui (exec retry w)) = InitialLoading /\
  characters (ui (exec retry w)) = characters (ui w) /\
  (forall o, failed o = true ->
     characters (ui (exec (fetchCharacters_resume 1 o) (exec retry w)))
     = characters (ui w)) /\
  (forall res json results,
     ok res = true -> body res = Some json ->
     member json "results" = inr results ->
     characters (ui (exec (fetchCharacters_resume 1 (Responded res)) (exec retry w)))
     = results).
Proof.
  intros _. unfold retry.
  split; [ | split; [ | split; [ | split]]].
  - apply begin_inflight.
  - reflexivity.
  - apply (begin_characters 1).
  - intros o Ho. rewrite resume_failed by exact Ho. simpl.
    apply (begin_characters 1).
  - intros res json results Hok Hb Hm.
    exact (proj1 (resume_first_page res json results _ Hok Hb Hm)).
Qed.

Lemma retry_is_initial_load_witness :
  inflight (exec retry w_third_failed) = 1 :: inflight w_third_failed /\
  phase (ui (exec retry w_third_failed)) = InitialLoading /\
  characters (ui (exec retry w_third_failed)) = characters (ui w_third_failed) /\
  (forall o, failed o = true ->
     characters (ui (exec (fetchCharacters_resume 1 o) (exec retry w_third_failed)))
     = characters (ui w_third_failed)) /\
  (forall res json results,
     ok res = true -> body res = Some json ->
     member json "results" = inr results ->
     characters (ui (exec (fetchCharacters_resume 1 (Responded res))
                       (exec retry w_third_failed)))
     = results).
Proof. exact (retry_is_initial_load w_third_failed eq_refl). Defined.

(** ** C5: when the page counter moves *)

(** [loadMore] writes the counter before the request is issued. *)
Lemma loadMore_page (w : World) :
  loadingMore (ui w) || loading (ui w) || negb (hasMore (ui w)) = false ->
  page (ui (exec loadMore w)) = cursor (ui w).
Proof.
  intro G. rewrite loadMore_passes by exact G.
  now rewrite (begin_page (cursor (ui w))).
Qed.

(** C5.  The run mount, page 1 arrives, end of list reached, page 2 answers
    500, retry, page 1 arrives, end of list reached.  After page 1 the next
    page to ask for is 2.  [loadMore] moves it to 3 while the request for
    page 2 is still outstanding, and it is still 3 once that request has
    failed, with only page 1 held.  The retry asks for page 1 again and
    leaves the counter alone, so the next [loadMore] asks for page 3: page 2
    is not requested again. *)
Theorem failed_page_is_skipped :
  cursor (ui w_page1) = 2 /\
  inflight w_more = [2] /\ cursor (ui w_more) = 3 /\
  phase (ui w_more_failed) = Failed /\ cursor (ui w_more_failed) = 3 /\
  characters (ui w_more_failed) = VArr [entity 1; entity 2] /\
  inflight w_retry = [1] /\
  characters (ui w_retry_page1) = VArr [entity 1; entity 2] /\
  cursor (ui w_retry_page1) = 3 /\
  inflight (exec loadMore w_retry_page1) = [3].
Proof. repeat split. Qed.

(** ** C6: a failed initial load *)

(** C6, as stated, fails: with two items held after page 2 failed, the
    call [fetchCharacters(1)] of the retry button neither empties the items
    nor writes [page] before it fetches, and when that request fails too the
    two items are still held. *)
Lemma initial_load_keeps_items :
  reachable w_more_failed /\
  characters (ui w_more_failed) = VArr [entity 1; entity 2] /\
  characters (ui (exec retry w_more_failed)) = VArr [entity 1; entity 2] /\
  page (ui (exec retry w_more_failed)) = 2 /\
  characters (ui (exec (fetchCharacters_resume 1 http_500) (exec retry w_more_failed)))
  = VArr [entity 1; entity 2] /\
  characters (ui (exec (fetchCharacters_resume 1 http_500) (exec retry w_more_failed)))
  <> VArr [] /\
  phase (ui (exec (fetchCharacters_resume 1 http_500) (exec retry w_more_failed)))
  = Failed.
Proof. split; [exact reachable_w_more_failed | repeat split; discriminate]. Qed.

(** C6, amended.  A call [fetchCharacters(1)], from the mount effect or
    from the retry button, leaves the items as they are while its request
    is outstanding; when the request fails they are still as they were and
    the phase is Failed.  For a fresh component that is the empty list. *)
Theorem failed_initial_load (w : World) (o : Outcome) :
  failed o = true ->
  characters (ui (exec (fetchCharacters_begin 1) w)) = characters (ui w) /\
  characters (ui (exec (fetchCharacters_resume 1 o) (exec (fetchCharacters_begin 1) w)))
  = characters (ui w) /\
  phase (ui (exec (fetchCharacters_resume 1 o) (exec (fetchCharacters_begin 1) w)))
  = Failed /\
  characters (ui (exec (fetchCharacters_resume 1 o) mounted_world)) = VArr [].
Proof.
  intro Ho.
  split; [ | split; [ | split]].
  - apply (begin_characters 1).
  - rewrite resume_failed by exact Ho. simpl. apply (begin_characters 1).
  - now apply phase_failed_after.
  - rewrite resume_failed by exact Ho. reflexivity.
Qed.

Lemma failed_initial_load_witness :
  characters (ui (exec (fetchCharacters_begin 1) initial_world)) = VArr [] /\
  characters (ui w_first_failed) = VArr [] /\
  phase (ui w_first_failed) = Failed /\
  characters (ui (exec (fetchCharacters_resume 1 http_500) mounted_world)) = VArr [].
Proof. exact (failed_initial_load initial_world http_500 eq_refl). Defined.

(** ** C7: a failed later load *)

(** C7.  In a state that shows the list with more to come (phase Ready),
    [loadMore] issues the request for the next page, and when that request
    fails (no response, a status outside 200-299, a body that is not JSON,
    the JSON value null) the items are exactly the ones held before and the
    phase is Failed. *)
Theorem failed_loadMore_keeps_items (w : World) (o : Outcome) :
  phase (ui w) = Ready ->
  failed o = true ->
  inflight (exec loadMore w) = cursor (ui w) :: inflight w /\
  characters (ui (exec (fetchCharacters_resume (cursor (ui w)) o) (exec loadMore w)))
  = characters (ui w) /\
  phase (ui (exec (fetchCharacters_resume (cursor (ui w)) o) (exec loadMore w)))
  = Failed.
Proof.
  intros Hph Ho. pose proof (ready_passes w Hph) as G.
  split; [ | split].
  - now apply loadMore_inflight.
  - rewrite resume_failed by exact Ho. simpl. apply loadMore_characters.
  - now apply phase_failed_after.
Qed.

Lemma failed_loadMore_keeps_items_witness :
  inflight (exec loadMore w_page1) = [2] /\
  characters (ui w_more_failed) = VArr [entity 1; entity 2] /\
  phase (ui w_more_failed) = Failed.
Proof. exact (failed_loadMore_keeps_items w_page1 http_500 eq_refl eq_refl). Defined.

(** ** C8: the end of the list is final *)

(** C8.  Once [hasMore] is false, and so in every state of phase
    Exhausted, any number of calls of [loadMore] in a row returns the very
    same world: the items are unchanged and no request is issued. *)
Theorem exhausted_is_final (w : World) (n : nat) :
  phase (ui w) = Exhausted \/ hasMore (ui w) = false ->
  repeat_call loadMore n w = w /\
  characters (ui (repeat_call loadMore n w)) = characters (ui w) /\
  inflight (repeat_call loadMore n w) = inflight w.
Proof.
  intro H.
  assert (Hm : hasMore (ui w) = false).
  { destruct H as [H | H]; [ | exact H]. phase_cells H. reflexivity. }
  assert (E : repeat_call loadMore n w = w).
  { induction n as [ | n IH]; [reflexivity | ].
    simpl. rewrite loadMore_blocked; [exact IH | ].
    rewrite Hm. apply orb_true_r. }
  now rewrite E.
Qed.

Lemma exhausted_is_final_witness :
  repeat_call loadMore 3 w_page2 = w_page2 /\
  characters (ui (repeat_call loadMore 3 w_page2)) = characters (ui w_page2) /\
  inflight (repeat_call loadMore 3 w_page2) = inflight w_page2.
Proof. apply (exhausted_is_final w_page2 3). left. reflexivity. Defined.

(** ** C9: a payload of another shape *)

(** C9, as stated, fails: the first request is answered 200 with the JSON
    object [{}], which has neither [results] nor [info].  No message is
    set; the phase is Exhausted, not Failed, and the items cell holds
    [undefined]. *)
Lemma malformed_page_is_stored :
  characters (ui w_malformed) = VUndefined /\
  error (ui w_malformed) = None /\
  hasMore (ui w_malformed) = false /\
  phase (ui w_malformed) = Exhausted /\
  phase (ui w_malformed) <> Failed.
Proof. repeat split; discriminate. Qed.

(** C9, amended.  For a response with a success status, the call ends in
    phase Failed exactly when the body is not JSON or decodes to a value no
    property can be read from (the JSON value null).  No other payload is
    checked against the envelope: on page 1, whatever [json.results] is
    becomes the items cell and no message is set. *)
Theorem success_status_fails_only_undecodable (w : World) (p : Z) (res : Response) :
  ok res = true ->
  (phase (ui (exec (fetchCharacters_resume p (Responded res))
                (exec (fetchCharacters_begin p) w))) = Failed
   <-> body res = None \/ body res = Some VNull \/ body res = Some VUndefined) /\
  (forall json results,
     body res = Some json -> member json "results" = inr results ->
     characters (ui (exec (fetchCharacters_resume 1 (Responded res))
                       (exec (fetchCharacters_begin 1) w))) = results /\
     error (ui (exec (fetchCharacters_resume 1 (Responded res))
                  (exec (fetchCharacters_begin 1) w))) = None).
Proof.
  intro Hok. split.
  - assert (Hf : failed (Responded res) = true <->
                 body res = None \/ body res = Some VNull \/ body res = Some VUndefined).
    { unfold failed. rewrite Hok. simpl.
      destruct (body res) as [[ | | | | | | ] | ]; split; intro H; auto;
        try discriminate;
        destruct H as [H | [H | H]]; discriminate. }
    rewrite <- Hf. split.
    + intro Hph. destruct (failed (Responded res)) eqn:E; [reflexivity | ].
      exfalso. unfold phase in Hph.
      destruct (resume_flags p (Responded res) (exec (fetchCharacters_begin p) w))
        as [Hl _].
      rewrite Hl, resume_error, E, begin_error in Hph. simpl in Hph.
      destruct (loadingMore _); [discriminate | ].
      destruct (hasMore _); discriminate.
    + apply phase_failed_after.
  - intros json results Hb Hm. split.
    + exact (proj1 (resume_first_page res json results _ Hok Hb Hm)).
    + rewrite resume_error, begin_error.
      unfold failed. rewrite Hok, Hb. simpl.
      destruct json; try discriminate; reflexivity.
Qed.

Lemma success_status_fails_only_undecodable_witness :
  (phase (ui (exec (fetchCharacters_resume 1 (Responded empty_object_response))
                (exec (fetchCharacters_begin 1) initial_world))) = Failed
   <-> body empty_object_response = None \/
       body empty_object_response = Some VNull \/
       body empty_object_response = Some VUndefined) /\
  (forall json results,
     body empty_object_response = Some json ->
     member json "results" = inr results ->
     characters (ui (exec (fetchCharacters_resume 1 (Responded empty_object_response))
                       (exec (fetchCharacters_begin 1) initial_world))) = results /\
     error (ui (exec (fetchCharacters_resume 1 (Responded empty_object_response))
                  (exec (fetchCharacters_begin 1) initial_world))) = None).
Proof.
  exact (success_status_fails_only_undecodable initial_world 1
           empty_object_response eq_refl).
Defined.

(** ** C10: the flags after a settlement *)

(** C10.  Whatever the page, the outcome and the world in which a request
    settles, the settlement ends with [loading] and [loadingMore] both
    false, so the loading part of the guard of [loadMore] lets the next
    call through: that call is stopped only if [hasMore] is false. *)
Theorem settled_clears_loading (p : Z) (o : Outcome) (w : World) :
  loading (ui (exec (fetchCharacters_resume p o) w)) = false /\
  loadingMore (ui (exec (fetchCharacters_resume p o) w)) = false /\
  phase (ui (exec (fetchCharacters_resume p o) w)) <> InitialLoading /\
  phase (ui (exec (fetchCharacters_resume p o) w)) <> IncrementalLoading /\
  loadingMore (ui (exec (fetchCharacters_resume p o) w))
    || loading (ui (exec (fetchCharacters_resume p o) w))
    || negb (hasMore (ui (exec (fetchCharacters_resume p o) w)))
  = negb (hasMore (ui (exec (fetchCharacters_resume p o) w))).
Proof.
  destruct (resume_flags p o w) as [Hl Hm].
  split; [exact Hl | split; [exact Hm | ]].
  unfold phase. rewrite Hl, Hm. simpl.
  split; [ | split; [ | reflexivity]].
  - destruct (truthy_str _); [discriminate | ]. destruct (hasMore _); discriminate.
  - destruct (truthy_str _); [discriminate | ]. destruct (hasMore _); discriminate.
Qed.

(** ** Remarks on the limits of the guards *)

(** [fetchCharacters] tests nothing itself: called directly while a request
    is outstanding it issues a second one.  Single flight rests on the
    guard of [loadMore] and on the retry button not being rendered. *)
Remark fetchCharacters_unguarded :
  inflight (exec (fetchCharacters_begin 1) mounted_world) = [1; 1].
Proof. reflexivity. Qed.

(** On a later page a [results] that cannot be spread throws inside the
    queued updater, during the render and so past the [catch]: no message
    is set and the component is gone. *)
Remark later_page_without_results :
  alive (exec (fetchCharacters_resume 2 (ok_json (VObj []))) w_more) = false /\
  error (ui (exec (fetchCharacters_resume 2 (ok_json (VObj []))) w_more)) = None.
Proof. split; reflexivity. Qed.

(** * Further properties of the component *)

(** ** The flags, the counter and the outstanding request *)

Lemma begin_loading (p : Z) (w : World) :
  loading (ui (exec (fetchCharacters_begin p) w)) = (p =? 1) || loading (ui w).
Proof. unfold exec, fetchCharacters_begin, bind. destruct (p =? 1); reflexivity. Qed.

Lemma begin_loadingMore (p : Z) (w : World) :
  loadingMore (ui (exec (fetchCharacters_begin p) w))
  = negb (p =? 1) || loadingMore (ui w).
Proof. unfold exec, fetchCharacters_begin, bind. destruct (p =? 1); reflexivity. Qed.

Lemma succ_bounded (n : Z) : n <= max_safe -> JS.succ n <= max_safe.
Proof. unfold JS.succ. destruct (Z.ltb_spec n max_safe); lia. Qed.

Lemma succ_grows (n : Z) : n <= JS.succ n <= n + 1.
Proof. unfold JS.succ. destruct (n <? max_safe); lia. Qed.

Lemma idle_of_flags (w : World) :
  Inv w -> loading (ui w) = false -> loadingMore (ui w) = false -> inflight w = [].
Proof.
  intros [_ [[Hi _] | (q & _ & Hl & _)]] H1 H2; [exact Hi | ].
  unfold in_loading in Hl. rewrite H1, H2 in Hl. discriminate.
Qed.

Lemma idle_of_error (w : World) :
  Inv w -> error (ui w) <> None -> inflight w = [] /\ in_loading (ui w) = false.
Proof.
  intros [_ [H | (q & _ & _ & He)]] Hne; [exact H | contradiction].
Qed.

Lemma Inv_flags_mounted : Inv_flags mounted_world.
Proof.
  split; [now left | split; [discriminate | split; [discriminate | ]]].
  intros p H. injection H as <-. repeat split. now left.
Qed.

(** What a call of [fetchCharacters] made with nothing outstanding and no
    flag up establishes. *)
Lemma Inv_flags_begin (p : Z) (w : World) :
  inflight w = [] -> loading (ui w) = false -> loadingMore (ui w) = false ->
  page (ui w) <= max_safe ->
  (p <> 1 -> hasMore (ui w) = true) ->
  (p = 1 \/ p = page (ui w)) ->
  Inv_flags (exec (fetchCharacters_begin p) w).
Proof.
  intros Hi Hl Hm Hpg Hh Hp.
  split; [ | split; [ | split]].
  - left. apply begin_error.
  - rewrite begin_loadingMore, (begin_hasMore p w), Hm, orb_false_r.
    destruct (Z.eqb_spec p 1); simpl; [discriminate | auto].
  - now rewrite (begin_page p w).
  - intros q Hq. rewrite begin_inflight, Hi in Hq. injection Hq as <-.
    rewrite begin_loading, begin_loadingMore, (begin_page p w), Hl, Hm.
    now rewrite !orb_false_r.
Qed.

Lemma Inv_flags_step (w w' : World) (ev : Event) :
  Inv w -> Inv_flags w -> step w ev w' -> Inv_flags w'.
Proof.
  intros HI (Herr & Hfoot & Hpg & Hreq) [[Halive Hen] ->].
  destruct ev as [ | | item | | p o]; simpl in *.
  - (* EndReached *)
    destruct (loadingMore (ui w) || loading (ui w) || negb (hasMore (ui w))) eqn:G.
    + rewrite loadMore_blocked by exact G. repeat split; auto; apply Hreq; auto.
    + rewrite loadMore_passes by exact G.
      destruct (loadingMore (ui w)) eqn:Hm, (loading (ui w)) eqn:Hl,
        (hasMore (ui w)) eqn:Hh; try discriminate.
      apply Inv_flags_begin; simpl; auto.
      * now apply idle_of_flags.
      * apply succ_bounded. exact Hpg.
  - (* RetryPress *)
    apply retry_visible_error in Hen as Hne.
    destruct (idle_of_error w HI Hne) as [Hi Hl].
    unfold in_loading in Hl. apply orb_false_iff in Hl as [Hl Hm].
    apply Inv_flags_begin; auto.
  - (* CardPress *) repeat split; auto; apply Hreq; auto.
  - (* BackPress *) repeat split; auto; apply Hreq; auto.
  - (* Settled *)
    destruct (resume_flags p o w) as [Hl Hm].
    split; [ | split; [ | split]].
    + rewrite resume_error. destruct (failed o); auto.
    + rewrite Hm. discriminate.
    + now rewrite (resume_page p o w).
    + intros q Hq. rewrite resume_inflight in Hq. exfalso.
      destruct HI as [_ [[Hi _] | (r & Hr & _)]].
      * rewrite Hi in Hen. destruct Hen.
      * rewrite Hr in *. rewrite (remove_one_single p r Hen) in Hq. discriminate.
Qed.

Lemma reachable_Inv_flags (w : World) : reachable w -> Inv_flags w.
Proof.
  induction 1 as [ | w ev w' Hr IH Hs].
  - exact Inv_flags_mounted.
  - exact (Inv_flags_step w w' ev (reachable_Inv w Hr) IH Hs).
Qed.

Lemma steps_w_more :
  steps mounted_world [Settled 1 (ok_json page1_json); EndReached] w_more.
Proof.
  apply (steps_cons _ _ w_page1).
  - repeat split. now left.
  - apply (steps_cons _ _ w_more); [repeat split | apply steps_nil].
Qed.

(** ** What is on the screen *)

(** Lines 82-112 render exactly one of the three views in every state: the
    full-screen spinner, or the message with its retry button, or the
    list.  Never two of them and never none. *)
Theorem one_view_at_a_time (s : State) :
  (spinner_visible s = true /\ retry_visible s = false /\ list_visible s = false) \/
  (spinner_visible s = false /\ retry_visible s = true /\ list_visible s = false) \/
  (spinner_visible s = false /\ retry_visible s = false /\ list_visible s = true).
Proof.
  unfold spinner_visible, retry_visible, list_visible.
  destruct (loading s), (truthy_str (error s)); simpl; auto.
Qed.



(** In every world a mounted component reaches, the footer of the list
    never shows its spinner together with the end-of-list line:
    [loadingMore] is only up while [hasMore] is true. *)
Theorem footer_shows_one_thing (w : World) :
  reachable w ->
  footer_spinner_visible (ui w) && end_marker_visible (ui w) = false.
Proof.
  intro Hr. destruct (reachable_Inv_flags w Hr) as (_ & Hfoot & _).
  unfold footer_spinner_visible, end_marker_visible.
  destruct (loadingMore (ui w)); [ | reflexivity].
  now rewrite Hfoot.
Qed.

Lemma footer_shows_one_thing_witness :
  footer_spinner_visible (ui w_more) && end_marker_visible (ui w_more) = false.
Proof. exact (footer_shows_one_thing w_more reachable_w_more). Defined.



(** ** The page counter *)

Lemma step_page (w w' : World) (ev : Event) :
  step w ev w' -> page (ui w) <= page (ui w') <= page (ui w) + 1.
Proof.
  intros [_ ->]. destruct ev as [ | | item | | p o]; cbn [handler].
  - destruct (loadingMore (ui w) || loading (ui w) || negb (hasMore (ui w))) eqn:G.
    + rewrite loadMore_blocked by exact G. lia.
    + rewrite loadMore_page by exact G. apply succ_grows.
  - unfold retry. rewrite (begin_page 1 w). lia.
  - simpl. lia.
  - simpl. lia.
  - rewrite (resume_page p o w). lia.
Qed.

(** No event ever lowers the page counter, and one event raises it by at
    most one: along every run from a reachable world it stays between 1
    and 2^53 and never decreases.  In particular neither a failed request
    nor the retry button sets it back. *)
Theorem page_never_decreases (w w' : World) (evs : list Event) :
  reachable w ->
  steps w evs w' ->
  1 <= page (ui w) /\ page (ui w) <= page (ui w') /\
  page (ui w') <= page (ui w) + Z.of_nat (List.length evs) /\
  page (ui w') <= max_safe.
Proof.
  intros Hr Hs.
  pose proof (reachable_steps w w' evs Hr Hs) as Hr'.
  destruct (reachable_Inv w Hr) as [H1 _].
  destruct (reachable_Inv_flags w' Hr') as (_ & _ & Hmax & _).
  split; [exact H1 | ]. split; [ | split; [ | exact Hmax]].
  - clear Hr Hr' H1 Hmax.
    induction Hs as [ | w ev w1 evs w2 Hst _ IH]; [lia | ].
    pose proof (step_page w w1 ev Hst). lia.
  - clear Hr Hr' H1 Hmax.
    induction Hs as [ | w ev w1 evs w2 Hst _ IH]; [simpl; lia | ].
    pose proof (step_page w w1 ev Hst).
    change (List.length (ev :: evs)) with (S (List.length evs)). lia.
Qed.

Lemma page_never_decreases_witness :
  1 <= page (ui mounted_world) /\ page (ui mounted_world) <= page (ui w_more) /\
  page (ui w_more) <= page (ui mounted_world) + 2 /\
  page (ui w_more) <= max_safe.
Proof.
  exact (page_never_decreases mounted_world w_more
           [Settled 1 (ok_json page1_json); EndReached] reach_mount steps_w_more).
Defined.

(** ** Failures *)

(** The component cannot tell one failure from another: whether the
    request got no response, a status outside 200-299, or a body it cannot
    decode, the settlement leaves the very same world, which differs from
    the one before only in the message, the two flags and the request
    taken off the list. *)
Theorem failures_look_alike (p : Z) (o1 o2 : Outcome) (w : World) :
  failed o1 = true -> failed o2 = true ->
  exec (fetchCharacters_resume p o1) w = exec (fetchCharacters_resume p o2) w /\
  characters (ui (exec (fetchCharacters_resume p o1) w)) = characters (ui w) /\
  page (ui (exec (fetchCharacters_resume p o1) w)) = page (ui w) /\
  hasMore (ui (exec (fetchCharacters_resume p o1) w)) = hasMore (ui w) /\
  selected (ui (exec (fetchCharacters_resume p o1) w)) = selected (ui w) /\
  error (ui (exec (fetchCharacters_resume p o1) w)) = Some error_message /\
  alive (exec (fetchCharacters_resume p o1) w) = alive w.
Proof.
  intros H1 H2. rewrite (resume_failed p o1 w H1), (resume_failed p o2 w H2).
  repeat split.
Qed.

Lemma failures_look_alike_witness :
  exec (fetchCharacters_resume 2 Rejected) w_more
  = exec (fetchCharacters_resume 2 http_500) w_more /\
  characters (ui (exec (fetchCharacters_resume 2 Rejected) w_more))
  = characters (ui w_more) /\
  page (ui (exec (fetchCharacters_resume 2 Rejected) w_more)) = page (ui w_more) /\
  hasMore (ui (exec (fetchCharacters_resume 2 Rejected) w_more)) = hasMore (ui w_more) /\
  selected (ui (exec (fetchCharacters_resume 2 Rejected) w_more))
  = selected (ui w_more) /\
  error (ui (exec (fetchCharacters_resume 2 Rejected) w_more)) = Some error_message /\
  alive (exec (fetchCharacters_resume 2 Rejected) w_more) = alive w_more.
Proof. exact (failures_look_alike 2 Rejected http_500 w_more eq_refl eq_refl). Defined.

(** ** Whether more pages are announced *)

Lemma not_failed (res : Response) :
  failed (Responded res) = false ->
  ok res = true /\
  exists json, body res = Some json /\ forall k, exists v, member json k = inr v.
Proof.
  unfold failed. intro H. apply orb_false_iff in H as [Hok Hb].
  apply negb_false_iff in Hok. split; [exact Hok | ].
  destruct (body res) as [json | ]; [ | discriminate].
  exists json. split; [reflexivity | ].
  intro k. destruct json; try discriminate; simpl; eauto.
Qed.

Lemma resume_hasMore (p : Z) (res : Response) (json info : value) (w : World) :
  ok res = true -> body res = Some json -> member json "info" = inr info ->
  hasMore (ui (exec (fetchCharacters_resume p (Responded res)) w))
  = truthy info &&
    match member info "next" with
    | inr next => truthy next
    | inl _ => false
    end.
Proof.
  intros Hok Hb Hi. unfold_m. rewrite Hok, Hb. simpl.
  assert (Hr : exists results, member json "results" = inr results)
    by (destruct json; try discriminate; simpl; eauto).
  destruct Hr as [results ->]. rewrite Hi.
  assert (Hn : truthy info = true -> exists next, member info "next" = inr next)
    by (destruct info; try discriminate; simpl; eauto).
  destruct (p =? 1); [ | destruct (spread_concat _ _)]; simpl;
    destruct (truthy info); simpl; try reflexivity;
    destruct (Hn eq_refl) as [next ->]; reflexivity.
Qed.

(** After a response that is not a failure, [hasMore] is true exactly when
    the payload has a truthy [info] whose [next] is truthy.  Nothing else
    counts: not the page asked for, not [results] (an empty page that names
    a next page leaves more to load, a full page with a null [next] is the
    last one), not what [hasMore] was before. *)
Theorem hasMore_follows_next (p : Z) (res : Response) (w : World) :
  failed (Responded res) = false ->
  (hasMore (ui (exec (fetchCharacters_resume p (Responded res)) w)) = true
   <-> exists json info next,
         body res = Some json /\
         member json "info" = inr info /\ truthy info = true /\
         member info "next" = inr next /\ truthy next = true).
Proof.
  intro Hf. destruct (not_failed res Hf) as (Hok & json & Hb & Hm).
  destruct (Hm "info"%string) as [info Hi].
  rewrite (resume_hasMore p res json info w Hok Hb Hi).
  split.
  - intro H. apply andb_true_iff in H as [Ht Hn].
    destruct (member info "next") as [e | next] eqn:En; [discriminate | ].
    exists json, info, next. auto.
  - intros (json' & info' & next & Hb' & Hi' & Ht & Hn & Htn).
    rewrite Hb in Hb'. injection Hb' as <-.
    rewrite Hi in Hi'. injection Hi' as <-.
    rewrite Ht, Hn. exact Htn.
Qed.

Lemma hasMore_follows_next_witness :
  hasMore (ui (exec (fetchCharacters_resume 2
                       (Responded {| status := 200; body := Some page2_more_json |}))
                 w_more)) = true
  <-> exists json info next,
        body {| status := 200; body := Some page2_more_json |} = Some json /\
        member json "info" = inr info /\ truthy info = true /\
        member info "next" = inr next /\ truthy next = true.
Proof.
  exact (hasMore_follows_next 2 {| status := 200; body := Some page2_more_json |}
           w_more eq_refl).
Defined.

(** ** What leaves the items alone *)





(** ** Retry *)

Lemma phase_failed (s : State) :
  phase s = Failed -> loading s = false /\ truthy_str (error s) = true.
Proof. intro H. phase_cells H. auto. Qed.

Lemma truthy_str_some (e : option string) : truthy_str e = true -> e <> None.
Proof. intros H E. rewrite E in H. discriminate. Qed.

(** A retry that fails changes nothing: in a reachable world of phase
    Failed, pressing the button and then seeing the request fail gives back
    exactly the world before the press. *)
Theorem failed_retry_is_identity (w : World) (o : Outcome) :
  reachable w -> phase (ui w) = Failed -> failed o = true ->
  exec (fetchCharacters_resume 1 o) (exec retry w) = w.
Proof.
  intros Hr Hph Ho.
  destruct (phase_failed _ Hph) as [Hl Ht].
  pose proof (truthy_str_some _ Ht) as Hne.
  destruct (idle_of_error w (reachable_Inv w Hr) Hne) as [Hi Hfl].
  destruct (reachable_Inv_flags w Hr) as ([He | He] & _); [contradiction | ].
  unfold in_loading in Hfl. apply orb_false_iff in Hfl as [_ Hm].
  rewrite (resume_failed 1 o _ Ho). unfold retry.
  rewrite begin_inflight, (begin_characters 1 w), (begin_page 1 w),
    (begin_hasMore 1 w), (begin_alive 1 w), Hi.
  assert (Hs : selected (ui (exec (fetchCharacters_begin 1) w)) = selected (ui w))
    by reflexivity.
  rewrite Hs.
  destruct w as [[ch pg ld lm hm sel er] infl al]. simpl in *. subst.
  reflexivity.
Qed.

Lemma failed_retry_is_identity_witness :
  exec (fetchCharacters_resume 1 http_500) (exec retry w_more_failed) = w_more_failed.
Proof.
  exact (failed_retry_is_identity w_more_failed http_500
           reachable_w_more_failed eq_refl eq_refl).
Defined.



(** ** The detail view does not interfere with the list *)

Lemma same_pagination_fields (w1 w2 : World) :
  same_pagination w1 w2 ->
  characters (ui w1) = characters (ui w2) /\ page (ui w1) = page (ui w2) /\
  loading (ui w1) = loading (ui w2) /\ loadingMore (ui w1) = loadingMore (ui w2) /\
  hasMore (ui w1) = hasMore (ui w2) /\ error (ui w1) = error (ui w2) /\
  inflight w1 = inflight w2 /\ alive w1 = alive w2.
Proof.
  unfold same_pagination, forget_selected, exec, setSelected, modify. simpl.
  intro H. injection H. intros. repeat split; assumption.
Qed.

Lemma same_pagination_select (w1 w2 : World) :
  same_pagination w1 w2 -> exists sel, w1 = exec (setSelected sel) w2.
Proof.
  intro H. destruct (same_pagination_fields w1 w2 H)
    as (H1 & H2 & H3 & H4 & H5 & H6 & H7 & H8).
  exists (selected (ui w1)).
  destruct w1 as [[ch1 pg1 ld1 lm1 hm1 sel1 er1] infl1 al1].
  destruct w2 as [[ch2 pg2 ld2 lm2 hm2 sel2 er2] infl2 al2].
  simpl in *. subst. reflexivity.
Qed.

(** A handler of the list runs the same whatever is selected. *)
Lemma begin_commutes (p : Z) (sel : option value) (w : World) :
  exec (fetchCharacters_begin p) (exec (setSelected sel) w)
  = exec (setSelected sel) (exec (fetchCharacters_begin p) w).
Proof.
  unfold exec, fetchCharacters_begin, bind. destruct (p =? 1); reflexivity.
Qed.

Lemma loadMore_commutes (sel : option value) (w : World) :
  exec loadMore (exec (setSelected sel) w) = exec (setSelected sel) (exec loadMore w).
Proof.
  destruct (loadingMore (ui w) || loading (ui w) || negb (hasMore (ui w))) eqn:G.
  - rewrite (loadMore_blocked w G). now apply loadMore_blocked.
  - rewrite (loadMore_passes w G).
    rewrite (loadMore_passes (exec (setSelected sel) w)) by exact G.
    rewrite <- begin_commutes. reflexivity.
Qed.

Lemma resume_commutes (p : Z) (o : Outcome) (sel : option value) (w : World) :
  exec (fetchCharacters_resume p o) (exec (setSelected sel) w)
  = exec (setSelected sel) (exec (fetchCharacters_resume p o) w).
Proof.
  destruct (failed o) eqn:Hf.
  - rewrite !resume_failed by exact Hf. reflexivity.
  - destruct o as [ | res]; [discriminate | ].
    destruct (not_failed res Hf) as (Hok & json & Hb & Hm).
    destruct (Hm "results"%string) as [results Hr].
    destruct (Hm "info"%string) as [info Hi].
    assert (Hn : truthy info = true -> exists next, member info "next" = inr next)
      by (destruct info; try discriminate; simpl; eauto).
    unfold_m. simpl. rewrite Hok, Hb. simpl. rewrite Hr, Hi.
    destruct (p =? 1); [ | destruct (spread_concat _ _)]; simpl;
      destruct (truthy info); simpl; try reflexivity;
      destruct (Hn eq_refl) as [next ->]; reflexivity.
Qed.

Lemma handler_commutes (ev : Event) (sel : option value) (w : World) :
  is_selection ev = false ->
  exec (handler ev) (exec (setSelected sel) w)
  = exec (setSelected sel) (exec (handler ev) w).
Proof.
  destruct ev as [ | | item | | p o]; intro H; try discriminate; cbn [handler].
  - apply loadMore_commutes.
  - apply begin_commutes.
  - apply resume_commutes.
Qed.

Lemma pagination_step (w1 w2 w1' : World) (ev : Event) :
  is_selection ev = false -> same_pagination w1 w2 -> step w1 ev w1' ->
  step w2 ev (exec (handler ev) w2) /\ same_pagination w1' (exec (handler ev) w2).
Proof.
  intros Hev Hs [[Ha Hen] ->].
  destruct (same_pagination_fields w1 w2 Hs) as (H1 & H2 & H3 & H4 & H5 & H6 & H7 & H8).
  split.
  - split; [ | reflexivity]. split; [congruence | ].
    destruct ev as [ | | item | | p o]; try discriminate; simpl in *.
    + exact I.
    + unfold retry_visible in *. now rewrite <- H3, <- H6.
    + now rewrite <- H7.
  - destruct (same_pagination_select w1 w2 Hs) as [sel ->].
    rewrite handler_commutes by exact Hev.
    unfold same_pagination, forget_selected. reflexivity.
Qed.

Lemma selection_step (w w' : World) (ev : Event) :
  is_selection ev = true -> step w ev w' -> same_pagination w' w.
Proof.
  intros Hev [_ ->]. destruct ev; try discriminate; reflexivity.
Qed.

(** Opening and closing the detail view never affects the list: take any
    run of events and drop the card and back presses from it; what is left
    is still a run, and it ends in a world with the same items, page, flags,
    [hasMore], message and outstanding request.  Selecting issues no
    request and delays none. *)
Theorem selection_does_not_interfere (w w' : World) (evs : list Event) :
  steps w evs w' ->
  exists w'',
    steps w (filter (fun ev => negb (is_selection ev)) evs) w'' /\
    same_pagination w' w'' /\
    characters (ui w') = characters (ui w'') /\
    page (ui w') = page (ui w'') /\
    inflight w' = inflight w''.
Proof.
  intro Hs.
  assert (G : forall v, same_pagination w v ->
            exists v', steps v (filter (fun ev => negb (is_selection ev)) evs) v' /\
                       same_pagination w' v').
  { induction Hs as [ | w ev w1 evs w2 Hst _ IH]; intros v Hv.
    - exists v. split; [apply steps_nil | exact Hv].
    - simpl. destruct (is_selection ev) eqn:Hev; simpl.
      + apply IH. unfold same_pagination in *.
        rewrite (selection_step w w1 ev Hev Hst). exact Hv.
      + destruct (pagination_step w v w1 ev Hev Hv Hst) as [Hst' Hv'].
        destruct (IH _ Hv') as (v' & Hrun & Hend).
        exists v'. split; [ | exact Hend].
        exact (steps_cons v ev _ _ v' Hst' Hrun). }
  destruct (G w eq_refl) as (w'' & Hrun & Hend).
  exists w''. split; [exact Hrun | split; [exact Hend | ]].
  destruct (same_pagination_fields w' w'' Hend) as (H1 & H2 & _ & _ & _ & _ & H7 & _).
  auto.
Qed.

Lemma selection_does_not_interfere_witness :
  exists w'',
    steps mounted_world (filter (fun ev => negb (is_selection ev)) browse_run) w'' /\
    same_pagination w_browsed w'' /\
    characters (ui w_browsed) = characters (ui w'') /\
    page (ui w_browsed) = page (ui w'') /\
    inflight w_browsed = inflight w''.
Proof.
  apply (selection_does_not_interfere mounted_world w_browsed browse_run).
  apply (steps_cons _ _ w_page1); [repeat split; now left | ].
  apply (steps_cons _ _ (exec (handler (CardPress (entity 1))) w_page1));
    [repeat split; now left | ].
  apply (steps_cons _ _ (exec loadMore (exec (handler (CardPress (entity 1))) w_page1)));
    [repeat split | ].
  apply (steps_cons _ _ w_browsed); [repeat split | apply steps_nil].
Defined.

(** ** After the last page *)






(** ** Payloads whose results is an array *)




(** ** A later page that cannot be spread *)

(** On a page other than the first, a response that is not a failure but
    whose [results] cannot be spread into the list (it is missing, null, a
    number, an object), or that meets a list that is itself no array, does
    not end in the error view: the queued updater throws during the render,
    no message is set and the component is unmounted. *)
Theorem unspreadable_page_unmounts (p : Z) (res : Response) (json results : value)
    (w : World) :
  p <> 1 -> ok res = true -> body res = Some json ->
  member json "results" = inr results ->
  spread_concat (characters (ui w)) results = None ->
  alive (exec (fetchCharacters_resume p (Responded res)) w) = false /\
  error (ui (exec (fetchCharacters_resume p (Responded res)) w)) = error (ui w) /\
  characters (ui (exec (fetchCharacters_resume p (Responded res)) w))
  = characters (ui w).
Proof.
  intros Hp Hok Hb Hr Hs. apply Z.eqb_neq in Hp.
  assert (Hi : exists info, member json "info" = inr info)
    by (destruct json; try discriminate; simpl; eauto).
  destruct Hi as [info Hi].
  assert (Hn : truthy info = true -> exists next, member info "next" = inr next)
    by (destruct info; try discriminate; simpl; eauto).
  unfold_m. simpl. rewrite Hok, Hb. simpl. rewrite Hr, Hp. simpl. rewrite Hs, Hi.
  destruct (truthy info); simpl; [ | repeat split].
  destruct (Hn eq_refl) as [next ->]. repeat split.
Qed.

Lemma unspreadable_page_unmounts_witness :
  alive (exec (fetchCharacters_resume 2 (Responded empty_object_response)) w_more)
  = false /\
  error (ui (exec (fetchCharacters_resume 2 (Responded empty_object_response)) w_more))
  = error (ui w_more) /\
  characters (ui (exec (fetchCharacters_resume 2 (Responded empty_object_response))
                    w_more))
  = characters (ui w_more).
Proof.
  apply (unspreadable_page_unmounts 2 empty_object_response (VObj []) VUndefined w_more).
  - discriminate.
  - reflexivity.
  - reflexivity.
  - reflexivity.
  - reflexivity.
Defined.

(** ** No dead end *)



(** ** The card width *)

(** For a window at least 48 and less than 2^53 wide, the card width of
    line 17 is not negative, and twice the card width lies within one of the window width
    less 48: [width - 49 < 2 * CARD_WIDTH <= width - 47].  So two cards
    never take more than the width less 47.  For a whole number [n] of
    units the card width is [(n - 47) / 2] rounded down. *)
Theorem card_width_bounds (width : Q) :
  (48 <= width)%Q -> (width < inject_Z max_safe)%Q ->
  0 <= CARD_WIDTH width /\
  (width - 49 < inject_Z (2 * CARD_WIDTH width))%Q /\
  (inject_Z (2 * CARD_WIDTH width) <= width - 47)%Q /\
  (forall n : Z, (width == inject_Z n)%Q -> CARD_WIDTH width = (n - 47) / 2).
Proof.
  intros Hw _. unfold CARD_WIDTH, Math_round.
  set (x := ((width - 48) / 2 + (1 # 2))%Q).
  assert (Hx : (x == (width - 47) * (1 # 2))%Q) by (unfold x; field).
  pose proof (Qfloor_le x) as Hlo. pose proof (Qlt_floor x) as Hhi.
  rewrite inject_Z_plus in Hhi. change (inject_Z 1) with 1%Q in Hhi.
  split; [ | split; [ | split]].
  - assert (H0 : (inject_Z 0 <= x)%Q) by (change (inject_Z 0) with 0%Q; lra).
    apply Qfloor_resp_le in H0. now rewrite Qfloor_Z in H0.
  - rewrite inject_Z_mult. change (inject_Z 2) with 2%Q. lra.
  - rewrite inject_Z_mult. change (inject_Z 2) with 2%Q. lra.
  - intros n Hn. rewrite Zdiv_Qdiv. apply Qfloor_comp.
    unfold Z.sub. rewrite inject_Z_plus, inject_Z_opp.
    change (inject_Z 47) with 47%Q. change (inject_Z 2) with 2%Q.
    rewrite Hx, Hn. field.
Qed.

Lemma card_width_bounds_witness :
  0 <= CARD_WIDTH 375 /\
  (375 - 49 < inject_Z (2 * CARD_WIDTH 375))%Q /\
  (inject_Z (2 * CARD_WIDTH 375) <= 375 - 47)%Q /\
  (forall n : Z, (375 == inject_Z n)%Q -> CARD_WIDTH 375 = (n - 47) / 2).
Proof. apply (card_width_bounds 375); [discriminate | reflexivity]. Defined.
